(** * howtrader.event.engine: the sharded event engine

    A shallow embedding of [src/howtrader/event/engine.py] and the
    properties of its handler registry, shard routing, worker loop and
    lifecycle.

    Modelling conventions.
    - Python [int] is [Z]; [str] is [string]; a [list] is a [list];
      the [defaultdict(list)] behind [_handlers] is a [gmap string (list Handler)]
      together with [defaultdict_getitem], which inserts the empty list
      on a missing key exactly as [defaultdict.__getitem__] does.
    - A handler is an opaque callable compared with [==]: a type with
      decidable equality.  What a call [handler(event)] does is given by
      [call]: it may change the state of the program outside the engine
      (the type [World]) and either returns or raises.  Handler calls
      end, and handlers do not call back into the engine.
    - [queue.Queue] is an unbounded FIFO: [put] appends at the back,
      [get] takes from the front, and a [get] that times out on an empty
      queue raises [Empty].
    - A [threading.Thread] is one of [Initial], [Alive], [Finished];
      [start] and [join] raise [RuntimeError] as the library documents.
    - Threads interleave at the granularity of one loop iteration of
      [_run] / [_run_timer] and of one call of a public method; a
      schedule is a list of such [Action]s.  The diagnostic [print] of
      [_run] is not modelled. *)

From Stdlib Require Import ZArith Lia.
From stdpp Require Import base option list numbers strings gmap fin_maps sorting.

Local Open Scope Z_scope.

(** ** Exceptions and results *)

Inductive Exn :=
  | Empty                       (* queue.Empty *)
  | RuntimeError
  | ZeroDivisionError
  | IndexError
  | ValueError
  | HandlerError (name : string). (* anything else a handler raises *)

Global Instance Exn_eq_dec : EqDecision Exn.
Proof. solve_decision. Defined.

(** How a call that ends does so. *)
Inductive Outcome :=
  | Returns
  | Raises (x : Exn).

Global Instance Outcome_eq_dec : EqDecision Outcome.
Proof. solve_decision. Defined.

(** A call that may have to wait for another thread: either it is
    [Done], or the caller [Waits] inside it. *)
Inductive Progress :=
  | Done (o : Outcome)
  | Waits.

Global Instance Progress_eq_dec : EqDecision Progress.
Proof. solve_decision. Defined.

(** ** threading.Thread *)

Inductive Thread := Initial | Alive | Finished.

Global Instance Thread_eq_dec : EqDecision Thread.
Proof. solve_decision. Defined.

(** [Thread.start()]: "threads can only be started once". *)
Definition Thread_start (t : Thread) : Outcome * Thread :=
  match t with
  | Initial => (Returns, Alive)
  | _ => (Raises RuntimeError, t)
  end.

(** [Thread.join()]: "cannot join thread before it is started". *)
Definition Thread_join (t : Thread) : Progress :=
  match t with
  | Initial => Done (Raises RuntimeError)
  | Alive => Waits
  | Finished => Done Returns
  end.

(** ** Python list helpers *)

(** [l.remove(x)]: drops the first element equal to [x]. *)
Fixpoint list_remove_first {A} `{EqDecision A} (x : A) (l : list A) : list A :=
  match l with
  | [] => []
  | y :: l' => if decide (x = y) then l' else y :: list_remove_first x l'
  end.

(** [l[i]]: the position a subscript denotes, [None] for [IndexError].
    Negative subscripts count from the end. *)
Definition list_position {A} (l : list A) (i : Z) : option nat :=
  if decide (0 <= i < Z.of_nat (length l)) then Some (Z.to_nat i)
  else if decide (- Z.of_nat (length l) <= i < 0) then Some (Z.to_nat (Z.of_nat (length l) + i))
  else None.

(** [range(n)] *)
Definition range (n : Z) : list Z := seqZ 0 n.

Definition EVENT_TIMER : string := "eTimer".

Section Engine.

(** The payload type ([Any]), the handlers and the program state the
    handlers act on. *)
Context {Data Handler World : Type} `{EqDecision Handler}.

(** ** Event *)

Record Event := mkEvent { type : string; data : option Data }.

(** [hash(s)] for a [str]: fixed for one run of the interpreter. *)
Variable hash : string -> Z.

(** [handler(event)] run in a given program state. *)
Variable call : Handler -> Event -> World -> Outcome * World.

(** ** EventEngine *)

Record EventEngine := mkEngine {
  _interval : Z;
  _n : Z;
  _queues : list (list Event);
  _threads : list Thread;      (* thread [i] has target [_run], args [(i,)] *)
  _active : bool;
  _timer : Thread;             (* target [_run_timer] *)
  _handlers : gmap string (list Handler);
  _general_handlers : list Handler;
}.

Definition set_queues (qs : list (list Event)) (self : EventEngine) : EventEngine :=
  mkEngine (_interval self) (_n self) qs (_threads self) (_active self)
           (_timer self) (_handlers self) (_general_handlers self).
Definition set_threads (ts : list Thread) (self : EventEngine) : EventEngine :=
  mkEngine (_interval self) (_n self) (_queues self) ts (_active self)
           (_timer self) (_handlers self) (_general_handlers self).
Definition set_active (b : bool) (self : EventEngine) : EventEngine :=
  mkEngine (_interval self) (_n self) (_queues self) (_threads self) b
           (_timer self) (_handlers self) (_general_handlers self).
Definition set_timer (t : Thread) (self : EventEngine) : EventEngine :=
  mkEngine (_interval self) (_n self) (_queues self) (_threads self) (_active self)
           t (_handlers self) (_general_handlers self).
Definition set_handlers (m : gmap string (list Handler)) (self : EventEngine) : EventEngine :=
  mkEngine (_interval self) (_n self) (_queues self) (_threads self) (_active self)
           (_timer self) m (_general_handlers self).
Definition set_general_handlers (l : list Handler) (self : EventEngine) : EventEngine :=
  mkEngine (_interval self) (_n self) (_queues self) (_threads self) (_active self)
           (_timer self) (_handlers self) l.

(** [__init__]: no argument is checked; [range(n)] is empty for
    [n <= 0].  The outcome is paired with the new object so that
    "construction raises" is expressible. *)
Definition __init__ (interval n : Z) : Outcome * EventEngine :=
  (Returns,
   mkEngine interval n
            ((fun _ => []) <$> range n)
            ((fun _ => Initial) <$> range n)
            false Initial ∅ []).

(** ** The handler registry *)

(** [d[k]] on a [defaultdict(list)]: a missing key is inserted with
    [[]]. The list returned aliases the one stored under [k]. *)
Definition defaultdict_getitem (d : gmap string (list Handler)) (k : string)
  : list Handler * gmap string (list Handler) :=
  match d !! k with
  | Some l => (l, d)
  | None => ([], <[k := []]> d)
  end.

Definition register (type : string) (handler : Handler) (self : EventEngine) : EventEngine :=
  let '(handler_list, d) := defaultdict_getitem (_handlers self) type in
  if decide (handler ∈ handler_list)
  then set_handlers d self
  else set_handlers (<[type := handler_list ++ [handler]]> d) self.

Definition unregister (type : string) (handler : Handler) (self : EventEngine) : EventEngine :=
  let '(handler_list, d) := defaultdict_getitem (_handlers self) type in
  let handler_list' :=
    if decide (handler ∈ handler_list)
    then list_remove_first handler handler_list
    else handler_list in
  let d' := <[type := handler_list']> d in
  match handler_list' with
  | [] => set_handlers (delete type d') self
  | _ :: _ => set_handlers d' self
  end.

Definition register_general (handler : Handler) (self : EventEngine) : EventEngine :=
  if decide (handler ∈ _general_handlers self)
  then self
  else set_general_handlers (_general_handlers self ++ [handler]) self.

Definition unregister_general (handler : Handler) (self : EventEngine) : EventEngine :=
  if decide (handler ∈ _general_handlers self)
  then set_general_handlers (list_remove_first handler (_general_handlers self)) self
  else self.

(** ** Dispatch *)

(** The comprehension [[handler(event) for handler in hs]]: the
    handlers called, in order, how the comprehension ended and the
    program state it left.  A handler that raises ends it. *)
Fixpoint call_each (hs : list Handler) (event : Event) (w : World)
  : list Handler * Outcome * World :=
  match hs with
  | [] => ([], Returns, w)
  | handler :: hs' =>
      match call handler event w with
      | (Returns, w') =>
          let '(called, o, w'') := call_each hs' event w' in
          (handler :: called, o, w'')
      | (o, w') => ([handler], o, w')
      end
  end.

Definition _process (self : EventEngine) (event : Event) (w : World)
  : list Handler * Outcome * World :=
  let '(called1, o1, w1) :=
    match _handlers self !! type event with
    | Some hs => call_each hs event w
    | None => ([], Returns, w)
    end in
  match o1 with
  | Returns =>
      let '(called2, o2, w2) :=
        match _general_handlers self with
        | [] => ([], Returns, w1)
        | _ :: _ => call_each (_general_handlers self) event w1
        end in
      (called1 ++ called2, o2, w2)
  | _ => (called1, o1, w1)
  end.

(** ** Shard routing *)

Definition list_getitem {A} (l : list A) (i : Z) : option A :=
  pos ← list_position l i; l !! pos.

(** [hash(event.type) % self._n]; Python's [%] takes the sign of the
    divisor, as [Z.modulo] does. *)
Definition shard_index (self : EventEngine) (event : Event) : Z :=
  hash (type event) `mod` _n self.

Definition put (event : Event) (self : EventEngine) : Outcome * EventEngine :=
  if decide (_n self = 0) then (Raises ZeroDivisionError, self)
  else
    let index := shard_index self event in
    match list_position (_queues self) index with
    | None => (Raises IndexError, self)
    | Some pos =>
        (Returns,
         set_queues (alter (fun queue => queue ++ [event]) pos (_queues self)) self)
    end.

(** ** Lifecycle *)

(** [for i in range(self._n): self._threads[i].start()] *)
Fixpoint start_threads (indices : list Z) (ts : list Thread) : Outcome * list Thread :=
  match indices with
  | [] => (Returns, ts)
  | i :: indices' =>
      match list_position ts i with
      | None => (Raises IndexError, ts)
      | Some pos =>
          match ts !! pos with
          | None => (Raises IndexError, ts)
          | Some t =>
              match Thread_start t with
              | (Returns, t') => start_threads indices' (<[pos := t']> ts)
              | (o, _) => (o, ts)
              end
          end
      end
  end.

Definition start (self : EventEngine) : Outcome * EventEngine :=
  let self := set_active true self in
  match start_threads (range (_n self)) (_threads self) with
  | (Returns, ts) =>
      let self := set_threads ts self in
      let '(o, t) := Thread_start (_timer self) in
      (o, set_timer t self)
  | (o, ts) => (o, set_threads ts self)
  end.

(** [for i in range(self._n): self._threads[i].join()] *)
Fixpoint join_threads (indices : list Z) (ts : list Thread) : Progress :=
  match indices with
  | [] => Done Returns
  | i :: indices' =>
      match list_getitem ts i with
      | None => Done (Raises IndexError)
      | Some t =>
          match Thread_join t with
          | Done Returns => join_threads indices' ts
          | p => p
          end
      end
  end.

(** [stop]: when a [join] has to wait, the result is [Waits] and the
    state is the one the caller waits in.  Calling [stop] again once
    the thread has finished continues the wait: the flag is already
    cleared and [join] on a finished thread returns at once. *)
Definition stop (self : EventEngine) : Progress * EventEngine :=
  let self := set_active false self in
  match Thread_join (_timer self) with
  | Done Returns => (join_threads (range (_n self)) (_threads self), self)
  | p => (p, self)
  end.

(** ** The running system *)

(** What an observer of a run sees. [index] is the shard index as the
    source computes it. *)
Inductive Obs :=
  | Enq (index : Z) (event : Event)                    (* [queue.put(event)] *)
  | Deq (index : Z) (event : Event)                    (* [queue.get] returned *)
  | Invoke (index : Z) (handler : Handler) (event : Event). (* [handler(event)] *)

Record System := mkSystem {
  engine : EventEngine;
  world : World;
  trace : list Obs;
}.

(** One iteration of the loop of [_run(k)], for the thread at position [k]. *)
Definition _run (k : nat) (s : System) : System :=
  let self := engine s in
  match _threads self !! k with
  | Some Alive =>
      let die := mkSystem (set_threads (<[k := Finished]> (_threads self)) self)
                          (world s) (trace s) in
      if decide (_n self = 0) then die
      else
        let index := Z.of_nat k `mod` _n self in
        match list_position (_queues self) index with
        | None => die
        | Some pos =>
            if negb (_active self) then die (* the loop ends, [_run] returns *)
            else
              match _queues self !! pos with
              | Some (event :: queue) =>
                  let self := set_queues (<[pos := queue]> (_queues self)) self in
                  let '(called, o, w) := _process self event (world s) in
                  let tr := trace s ++ Deq index event
                                       :: ((fun h => Invoke index h event) <$> called) in
                  match o with
                  | Returns | Raises Empty => mkSystem self w tr
                  | _ => mkSystem (set_threads (<[k := Finished]> (_threads self)) self) w tr
                  end
              | _ => s (* [Empty] after the timeout: [pass] *)
              end
        end
  | _ => s
  end.

(** One iteration of the loop of [_run_timer]. *)
Definition _run_timer (s : System) : System :=
  let self := engine s in
  match _timer self with
  | Alive =>
      let die := mkSystem (set_timer Finished self) (world s) (trace s) in
      if negb (_active self) then die
      else if decide (_interval self < 0) then die (* [sleep]: [ValueError] *)
      else
        let event := mkEvent EVENT_TIMER None in
        match put event self with
        | (Returns, self') =>
            mkSystem self' (world s) (trace s ++ [Enq (shard_index self event) event])
        | _ => die
        end
  | _ => s
  end.

Inductive Action :=
  | CallPut (event : Event)
  | CallRegister (type : string) (handler : Handler)
  | CallUnregister (type : string) (handler : Handler)
  | CallRegisterGeneral (handler : Handler)
  | CallUnregisterGeneral (handler : Handler)
  | CallStart
  | CallStop
  | WorkerIter (k : nat)
  | TimerIter.

Definition on_engine (f : EventEngine -> EventEngine) (s : System) : System :=
  mkSystem (f (engine s)) (world s) (trace s).

Definition step (a : Action) (s : System) : System :=
  match a with
  | CallPut event =>
      match put event (engine s) with
      | (Returns, self') =>
          mkSystem self' (world s) (trace s ++ [Enq (shard_index (engine s) event) event])
      | (_, self') => mkSystem self' (world s) (trace s)
      end
  | CallRegister type handler => on_engine (register type handler) s
  | CallUnregister type handler => on_engine (unregister type handler) s
  | CallRegisterGeneral handler => on_engine (register_general handler) s
  | CallUnregisterGeneral handler => on_engine (unregister_general handler) s
  | CallStart => on_engine (fun self => snd (start self)) s
  | CallStop => on_engine (fun self => snd (stop self)) s
  | WorkerIter k => _run k s
  | TimerIter => _run_timer s
  end.

Definition run (schedule : list Action) (s : System) : System :=
  foldl (fun s a => step a s) s schedule.

(** The system right after [EventEngine(interval, n)]. *)
Definition boot (interval n : Z) (w : World) : System :=
  mkSystem (snd (__init__ interval n)) w [].

End Engine.

(** ** The engine in finer steps

    The model above runs one whole loop iteration at a time, with
    handlers that leave the engine alone.  The source is finer on both
    counts: a worker tests [_active] and only then waits in [queue.get];
    the timer tests it and only then sleeps; the comprehensions of
    [_process] walk the list object itself, which a handler may change
    by calling [register] or [unregister] while it is being walked; and
    a handler may call any public method of the engine.  [Live] models
    the same engine at that grain.

    - A handler call is a [Prog]: it ends, or it makes a [Request] to
      the engine and goes on from the outcome.  Between two requests a
      handler runs without interruption.  A handler that calls [stop]
      waits inside [join] like any other caller, and other threads run
      meanwhile.
    - A thread takes one step at a time: a worker tests the flag, takes
      an event from its queue (or times out), takes the next handler of
      the list it walks and calls it; the timer tests the flag and
      starts to sleep, then wakes and puts its event.
    - The list stored under a type is an object of its own: [unregister]
      discards it when it becomes empty, and a later [register] stores a
      new one.  [epoch] counts the objects discarded under each type, so
      that a walk begun on one object does not continue on the next. *)

Module Live.

(** The longest [sleep] CPython accepts, in whole seconds: the argument
    is converted to a signed 64-bit count of nanoseconds, and
    [OverflowError] is raised beyond that. *)
Definition sleep_limit : Z := (2 ^ 63 - 1) `div` 10 ^ 9.

Section Model.
Context {Data Handler World : Type} `{EqDecision Handler}.

Variable hash : string -> Z.

(** A call of a public method made from inside a handler. *)
Inductive Request :=
  | ReqRegister (type : string) (handler : Handler)
  | ReqUnregister (type : string) (handler : Handler)
  | ReqRegisterGeneral (handler : Handler)
  | ReqUnregisterGeneral (handler : Handler)
  | ReqPut (event : @Event Data)
  | ReqStart
  | ReqStop.

(** A running handler: it [Ends], leaving the program state [w], or it
    [Asks] the engine for something, having brought the program state
    to [w], and continues from the outcome and the program state it
    finds when the call is over. *)
Inductive Prog :=
  | Ends (o : Outcome) (w : World)
  | Asks (w : World) (r : Request) (k : Outcome -> World -> Prog).

(** [handler(event)] begun in a given program state. *)
Variable call : Handler -> @Event Data -> World -> Prog.

(** What an observer of a run sees. *)
Inductive Obs :=
  | Enq (index : Z) (event : @Event Data)       (* [queue.put(event)] *)
  | Deq (index : Z) (event : @Event Data)       (* [queue.get] returned *)
  | Called (index : Z) (handler : Handler) (event : @Event Data) (o : Outcome)
                                                (* [handler(event)] ended *)
  | Ended (index : Z) (event : @Event Data) (o : Outcome)
                                                (* [_process(event)] ended *)
  | Registered (type : string) (handler : Handler)     (* [register] was called *)
  | Unregistered (type : string) (handler : Handler)   (* [unregister] was called *)
  | RegisteredGeneral (handler : Handler)
  | UnregisteredGeneral (handler : Handler).

(** Where [_process] is. *)
Inductive Pass :=
  | Entry                        (* at [if event.type in self._handlers] *)
  | TypePass (ep : nat) (i : nat)
      (* in the first comprehension: [i] handlers taken so far from the
         list object that was stored under the type at epoch [ep] *)
  | GeneralEntry                 (* at [if self._general_handlers] *)
  | GeneralPass (i : nat).       (* in the second comprehension *)

(** Where a worker is in [_run]. *)
Inductive Place :=
  | AtHead                                     (* at [while self._active] *)
  | InGet                                      (* in [queue.get(block=True, timeout=1)] *)
  | InProcess (event : @Event Data) (pass : Pass)
  | InStop (event : @Event Data) (next : Pass) (handler : Handler)
           (k : Outcome -> World -> Prog).
      (* in the [join]s of a [stop] that [handler] called; once they are
         over the handler goes on with [k], and [_process] with [next] *)

(** Where the timer is in [_run_timer]. *)
Inductive TimerPlace :=
  | TimerAtHead                                (* at [while self._active] *)
  | InSleep.                                   (* in [sleep(self._interval)] *)

Record System := mkSystem {
  engine : @EventEngine Data Handler;
  world : World;
  trace : list Obs;
  epoch : gmap string nat;
  places : list Place;         (* worker [k] is at [places !! k] *)
  timer_place : TimerPlace;
}.

Definition set_engine (self : @EventEngine Data Handler) (s : System) : System :=
  mkSystem self (world s) (trace s) (epoch s) (places s) (timer_place s).
Definition set_world (w : World) (s : System) : System :=
  mkSystem (engine s) w (trace s) (epoch s) (places s) (timer_place s).
Definition set_place (k : nat) (p : Place) (s : System) : System :=
  mkSystem (engine s) (world s) (trace s) (epoch s) (<[k := p]> (places s)) (timer_place s).
Definition set_timer_place (p : TimerPlace) (s : System) : System :=
  mkSystem (engine s) (world s) (trace s) (epoch s) (places s) p.
Definition observe (o : Obs) (s : System) : System :=
  mkSystem (engine s) (world s) (trace s ++ [o]) (epoch s) (places s) (timer_place s).

(** The list object stored under [type] was discarded. *)
Definition next_epoch (type : string) (s : System) : System :=
  mkSystem (engine s) (world s) (trace s)
           (<[type := S (default 0%nat (epoch s !! type))]> (epoch s))
           (places s) (timer_place s).

Definition epoch_of (s : System) (type : string) : nat :=
  default 0%nat (epoch s !! type).

(** ** Public methods, called by anyone *)

Definition do_register (type : string) (handler : Handler) (s : System) : System :=
  observe (Registered type handler) (set_engine (register type handler (engine s)) s).

(** [unregister] ends with the type absent exactly when it has
    discarded the list object, the one it found or the empty one it
    had just made. *)
Definition do_unregister (type : string) (handler : Handler) (s : System) : System :=
  let s := observe (Unregistered type handler)
                   (set_engine (unregister type handler (engine s)) s) in
  match _handlers (engine s) !! type with
  | None => next_epoch type s
  | Some _ => s
  end.

Definition do_register_general (handler : Handler) (s : System) : System :=
  observe (RegisteredGeneral handler) (set_engine (register_general handler (engine s)) s).

Definition do_unregister_general (handler : Handler) (s : System) : System :=
  observe (UnregisteredGeneral handler)
          (set_engine (unregister_general handler (engine s)) s).

Definition do_put (event : @Event Data) (s : System) : Outcome * System :=
  match put hash event (engine s) with
  | (Returns, self') =>
      (Returns, observe (Enq (shard_index hash (engine s) event) event) (set_engine self' s))
  | (o, self') => (o, set_engine self' s)
  end.

Definition do_start (s : System) : Outcome * System :=
  let '(o, self') := start (engine s) in (o, set_engine self' s).

(** The requests that do not wait. *)
Definition request (r : Request) (s : System) : Outcome * System :=
  match r with
  | ReqRegister type handler => (Returns, do_register type handler s)
  | ReqUnregister type handler => (Returns, do_unregister type handler s)
  | ReqRegisterGeneral handler => (Returns, do_register_general handler s)
  | ReqUnregisterGeneral handler => (Returns, do_unregister_general handler s)
  | ReqPut event => do_put event s
  | ReqStart => do_start s
  | ReqStop => (Returns, s)
  end.

(** ** A handler call *)

(** A handler call runs until it ends or has to wait. *)
Inductive Result :=
  | Over (o : Outcome) (s : System)
  | Blocked (k : Outcome -> World -> Prog) (s : System).

(** [stop] begins by clearing the flag; the [join]s follow. *)
Fixpoint exec (p : Prog) (s : System) : Result :=
  match p with
  | Ends o w => Over o (set_world w s)
  | Asks w ReqStop k => Blocked k (set_engine (set_active false (engine s)) (set_world w s))
  | Asks w r k =>
      let '(o, s') := request r (set_world w s) in
      exec (k o (world s')) s'
  end.

(** [for i in range(self._n): self._threads[i].join()] run by worker
    [k]: "cannot join current thread". *)
Fixpoint join_threads_from (k : nat) (indices : list Z) (ts : list Thread) : Progress :=
  match indices with
  | [] => Done Returns
  | i :: indices' =>
      match list_position ts i with
      | None => Done (Raises IndexError)
      | Some pos =>
          if decide (pos = k) then Done (Raises RuntimeError)
          else
            match ts !! pos with
            | None => Done (Raises IndexError)
            | Some t =>
                match Thread_join t with
                | Done Returns => join_threads_from k indices' ts
                | p => p
                end
            end
      end
  end.

(** The [join]s of [stop], run by worker [k]. *)
Definition joins (k : nat) (self : @EventEngine Data Handler) : Progress :=
  match Thread_join (_timer self) with
  | Done Returns => join_threads_from k (range (_n self)) (_threads self)
  | p => p
  end.

(** ** [_run] and [_process], step by step *)

Definition finish (k : nat) (s : System) : System :=
  set_engine (set_threads (<[k := Finished]> (_threads (engine s))) (engine s)) s.

(** [_process(event)] is over, and [_run] is back at the head of its
    loop: after the [print] when [_process] returned, through
    [except Empty: pass] when it raised [queue.Empty].  Any other
    exception ends the thread. *)
Definition leave_process (k : nat) (index : Z) (event : @Event Data) (o : Outcome)
    (s : System) : System :=
  let s := set_place k AtHead (observe (Ended index event o) s) in
  match o with
  | Returns | Raises Empty => s
  | _ => finish k s
  end.

(** [handler(event)] has run as far as [res]. *)
Definition after_call (k : nat) (index : Z) (event : @Event Data) (next : Pass)
    (handler : Handler) (res : Result) : System :=
  match res with
  | Over Returns s => set_place k (InProcess event next) (observe (Called index handler event Returns) s)
  | Over o s => leave_process k index event o (observe (Called index handler event o) s)
  | Blocked k' s => set_place k (InStop event next handler k') s
  end.

(** The list a [TypePass] walks: the object it began on, which is
    empty once discarded. *)
Definition walked (s : System) (type : string) (ep : nat) : list Handler :=
  if decide (epoch_of s type = ep) then default [] (_handlers (engine s) !! type) else [].

Definition _process_step (k : nat) (index : Z) (event : @Event Data) (pass : Pass)
    (s : System) : System :=
  match pass with
  | Entry =>
      if decide (is_Some (_handlers (engine s) !! type event))
      then set_place k (InProcess event (TypePass (epoch_of s (type event)) 0)) s
      else set_place k (InProcess event GeneralEntry) s
  | TypePass ep i =>
      match walked s (type event) ep !! i with
      | Some handler =>
          after_call k index event (TypePass ep (S i)) handler
                     (exec (call handler event (world s)) s)
      | None => set_place k (InProcess event GeneralEntry) s
      end
  | GeneralEntry =>
      match _general_handlers (engine s) with
      | [] => leave_process k index event Returns s
      | _ :: _ => set_place k (InProcess event (GeneralPass 0)) s
      end
  | GeneralPass i =>
      match _general_handlers (engine s) !! i with
      | Some handler =>
          after_call k index event (GeneralPass (S i)) handler
                     (exec (call handler event (world s)) s)
      | None => leave_process k index event Returns s
      end
  end.

(** One step of the thread at position [k], which runs [_run(k)]. *)
Definition _run (k : nat) (s : System) : System :=
  let self := engine s in
  match _threads self !! k with
  | Some Alive =>
      if decide (_n self = 0) then finish k s
      else
        let index := Z.of_nat k `mod` _n self in
        match list_position (_queues self) index with
        | None => finish k s
        | Some pos =>
            match places s !! k with
            | Some AtHead =>
                if _active self then set_place k InGet s
                else finish k s          (* the loop ends, [_run] returns *)
            | Some InGet =>
                match _queues self !! pos with
                | Some (event :: queue) =>
                    set_place k (InProcess event Entry)
                      (observe (Deq index event)
                         (set_engine (set_queues (<[pos := queue]> (_queues self)) self) s))
                | _ => set_place k AtHead s   (* [Empty] after the timeout: [pass] *)
                end
            | Some (InProcess event pass) => _process_step k index event pass s
            | Some (InStop event next handler k') =>
                match joins k self with
                | Waits => s
                | Done o =>
                    after_call k index event next handler (exec (k' o (world s)) s)
                end
            | None => s
            end
        end
  | _ => s
  end.

(** One step of the timer thread, which runs [_run_timer]. *)
Definition _run_timer (s : System) : System :=
  let self := engine s in
  match _timer self with
  | Alive =>
      let die := set_engine (set_timer Finished self) s in
      match timer_place s with
      | TimerAtHead =>
          if negb (_active self) then die                 (* the loop ends *)
          else if decide (_interval self < 0) then die    (* [sleep]: [ValueError] *)
          else if decide (sleep_limit < _interval self) then die (* [OverflowError] *)
          else set_timer_place InSleep s
      | InSleep =>
          match do_put (mkEvent EVENT_TIMER None) s with
          | (Returns, s') => set_timer_place TimerAtHead s'
          | (_, s') => set_engine (set_timer Finished (engine s')) s'
          end
      end
  | _ => s
  end.

Inductive Action :=
  | CallPut (event : @Event Data)
  | CallRegister (type : string) (handler : Handler)
  | CallUnregister (type : string) (handler : Handler)
  | CallRegisterGeneral (handler : Handler)
  | CallUnregisterGeneral (handler : Handler)
  | CallStart
  | CallStop
  | WorkerStep (k : nat)
  | TimerStep.

Definition step (a : Action) (s : System) : System :=
  match a with
  | CallPut event => snd (do_put event s)
  | CallRegister type handler => do_register type handler s
  | CallUnregister type handler => do_unregister type handler s
  | CallRegisterGeneral handler => do_register_general handler s
  | CallUnregisterGeneral handler => do_unregister_general handler s
  | CallStart => snd (do_start s)
  | CallStop => set_engine (snd (stop (engine s))) s
  | WorkerStep k => _run k s
  | TimerStep => _run_timer s
  end.

Definition run (schedule : list Action) (s : System) : System :=
  foldl (fun s a => step a s) s schedule.

(** The system right after [EventEngine(interval, n)]. *)
Definition boot (interval n : Z) (w : World) : System :=
  mkSystem (snd (__init__ interval n)) w [] ∅ ((fun _ => AtHead) <$> range n) TimerAtHead.

End Model.
End Live.

(** ** A concrete program

    Four handlers over integer payloads: [A] and [B] return, [Faulty]
    raises an error of its own, [Quiet] raises [queue.Empty].  The
    program state counts the handler calls made so far.  The hash of a
    type string is its length. *)

Module Demo.

Inductive handler := A | B | Faulty | Quiet.

#[global] Instance handler_eq_dec : EqDecision handler.
Proof. solve_decision. Defined.

Definition hash (s : string) : Z := Z.of_nat (String.length s).

Definition call (h : handler) (event : @Event Z) (w : nat) : Outcome * nat :=
  match h with
  | A | B => (Returns, S w)
  | Faulty => (Raises (HandlerError "boom"), S w)
  | Quiet => (Raises Empty, S w)
  end.

Definition X (payload : Z) : @Event Z := mkEvent "X" (Some payload).
Definition Y : @Event Z := mkEvent "Y" None.

End Demo.

(** ** Specification vocabulary *)



Section Vocabulary.
Context {Data Handler World : Type} `{EqDecision Handler}.

(** [start] has been called: every thread has left its initial state. *)
Definition started (self : @EventEngine Data Handler) : Prop :=
  _timer self <> Initial /\ Forall (fun t => t <> Initial) (_threads self).

(** The handlers [_process] iterates over for [event], in order: the
    list stored under [event.type], if any, then the general ones. *)
Definition dispatch_list (self : @EventEngine Data Handler) (event : @Event Data)
  : list Handler :=
  default [] (_handlers self !! type event) ++ _general_handlers self.

(** The registry invariant: stored lists are non-empty and free of
    duplicates, and the general list is free of duplicates. *)
Definition registry_ok (self : @EventEngine Data Handler) : Prop :=
  (forall T l, _handlers self !! T = Some l -> l <> [] /\ NoDup l)
  /\ NoDup (_general_handlers self).

(** The shape [__init__] gives the engine and nothing changes: one
    queue and one thread per shard. *)
Definition shape_ok (interval n : Z) (self : @EventEngine Data Handler) : Prop :=
  _interval self = interval /\ _n self = n
  /\ length (_queues self) = Z.to_nat n
  /\ length (_threads self) = Z.to_nat n.

(** The list [unregister] holds after
    [if handler in handler_list: handler_list.remove(handler)]. *)
Definition after_remove (h : Handler) (l : list Handler) : list Handler :=
  if decide (h ∈ l) then list_remove_first h l else l.

(** What every method other than the four registry methods leaves
    alone: the registry, the two settings and the number of queues and
    threads. *)
Definition same_frame (self self' : @EventEngine Data Handler) : Prop :=
  _handlers self' = _handlers self
  /\ _general_handlers self' = _general_handlers self
  /\ _interval self' = _interval self
  /\ _n self' = _n self
  /\ length (_queues self') = length (_queues self)
  /\ length (_threads self') = length (_threads self).

(** The lifecycle states of the engine. *)
Definition never_started (self : @EventEngine Data Handler) : Prop :=
  _active self = false /\ _timer self = Initial
  /\ Forall (fun t => t = Initial) (_threads self).

Definition stopped_after_run (self : @EventEngine Data Handler) : Prop :=
  _active self = false /\ _timer self = Finished
  /\ Forall (fun t => t = Finished) (_threads self).







End Vocabulary.

(** ** Vocabulary for the runs in finer steps *)

Section LiveVocabulary.
Context {Data Handler World : Type} `{EqDecision Handler}.

(** Projections of a trace on the shard [index]: the events put on its
    queue, the events its worker took, the handler calls its worker
    made with their outcomes, and how its runs of [_process] ended. *)
Definition puts (index : Z) (tr : list (@Live.Obs Data Handler)) : list (@Event Data) :=
  omap (fun o => match o with
                 | Live.Enq i e => if decide (i = index) then Some e else None
                 | _ => None
                 end) tr.

Definition gets (index : Z) (tr : list (@Live.Obs Data Handler)) : list (@Event Data) :=
  omap (fun o => match o with
                 | Live.Deq i e => if decide (i = index) then Some e else None
                 | _ => None
                 end) tr.

Definition calls (index : Z) (tr : list (@Live.Obs Data Handler))
  : list (Handler * Outcome) :=
  omap (fun o => match o with
                 | Live.Called i h _ r => if decide (i = index) then Some (h, r) else None
                 | _ => None
                 end) tr.

Definition ends (index : Z) (tr : list (@Live.Obs Data Handler)) : list Outcome :=
  omap (fun o => match o with
                 | Live.Ended i _ r => if decide (i = index) then Some r else None
                 | _ => None
                 end) tr.

(** A call of one of the four registry methods. *)
Definition registry_call (o : @Live.Obs Data Handler) : bool :=
  match o with
  | Live.Registered _ _ | Live.Unregistered _ _
  | Live.RegisteredGeneral _ | Live.UnregisteredGeneral _ => true
  | _ => false
  end.

(** No registry method is called in [tr]. *)
Definition quiet (tr : list (@Live.Obs Data Handler)) : Prop :=
  Forall (fun o => registry_call o = false) tr.

Definition returned (c : Handler * Outcome) : Prop := c.2 = Returns.

(** *** Registration order *)

(** The position in the trace of the call from which a standing
    registration dates: the first [reg] call after the last [unreg]
    call, if there is one. *)
Definition since (reg unreg : @Live.Obs Data Handler -> bool)
    (tr : list (@Live.Obs Data Handler)) : option nat :=
  snd (foldl (fun acc o =>
                (S acc.1,
                 if reg o then match acc.2 with None => Some acc.1 | t => t end
                 else if unreg o then None
                 else acc.2))
             (0%nat, None) tr).

Definition is_register (T : string) (h : Handler) (o : @Live.Obs Data Handler) : bool :=
  match o with
  | Live.Registered T' h' => bool_decide (T' = T /\ h' = h)
  | _ => false
  end.

Definition is_unregister (T : string) (h : Handler) (o : @Live.Obs Data Handler) : bool :=
  match o with
  | Live.Unregistered T' h' => bool_decide (T' = T /\ h' = h)
  | _ => false
  end.

Definition is_register_general (h : Handler) (o : @Live.Obs Data Handler) : bool :=
  match o with
  | Live.RegisteredGeneral h' => bool_decide (h' = h)
  | _ => false
  end.

Definition is_unregister_general (h : Handler) (o : @Live.Obs Data Handler) : bool :=
  match o with
  | Live.UnregisteredGeneral h' => bool_decide (h' = h)
  | _ => false
  end.

(** Since when [h] is registered for [T], and as a general handler. *)
Definition registered_since (T : string) (h : Handler)
    (tr : list (@Live.Obs Data Handler)) : option nat :=
  since (is_register T h) (is_unregister T h) tr.

Definition general_since (h : Handler) (tr : list (@Live.Obs Data Handler)) : option nat :=
  since (is_register_general h) (is_unregister_general h) tr.

(** [h1]'s registration is older than [h2]'s. *)
Definition older (t : Handler -> option nat) (h1 h2 : Handler) : Prop :=
  exists t1 t2, t h1 = Some t1 /\ t h2 = Some t2 /\ (t1 < t2)%nat.

(** [l] lists the registered handlers, and no others, from the oldest
    registration to the newest. *)
Definition in_order (t : Handler -> option nat) (l : list Handler) : Prop :=
  (forall h, h ∈ l <-> is_Some (t h)) /\ StronglySorted (older t) l.

(** The handlers registered for [T], and the general handlers, after
    the calls of [tr], in registration order. *)
Definition registered_in_order (T : string) (tr : list (@Live.Obs Data Handler))
    (l : list Handler) : Prop :=
  in_order (fun h => registered_since T h tr) l.

Definition general_in_order (tr : list (@Live.Obs Data Handler)) (l : list Handler) : Prop :=
  in_order (fun h => general_since h tr) l.

(** *** Invariants of a run *)

(** The registry holds the registered handlers in registration order. *)
Definition registry_traced (s : @Live.System Data Handler World) : Prop :=
  (forall T, registered_in_order T (Live.trace s)
                                 (default [] (_handlers (Live.engine s) !! T)))
  /\ general_in_order (Live.trace s) (_general_handlers (Live.engine s)).

(** Every queue holds the events put on it and not yet taken, in the
    order of the [put]s, and only the shards of the engine occur in
    the trace. *)
Definition queues_traced (s : @Live.System Data Handler World) : Prop :=
  forall index,
    if decide (0 <= index < Z.of_nat (length (_queues (Live.engine s))))
    then puts index (Live.trace s)
         = gets index (Live.trace s)
           ++ default [] (_queues (Live.engine s) !! Z.to_nat index)
    else puts index (Live.trace s) = [] /\ gets index (Live.trace s) = [].

(** What the handlers called so far in a run of [_process] say about
    where the run is, when no registry method was called during it:
    [lT] and [lG] are the handlers for the type of the event and the
    general handlers. *)
Definition pass_ok (lT lG called : list Handler) (ep : nat) (pass : @Live.Pass)
  : Prop :=
  match pass with
  | Live.Entry => called = []
  | Live.TypePass ep' i => ep' = ep /\ called = take i lT
  | Live.GeneralEntry => called = lT
  | Live.GeneralPass i => called = lT ++ take i lG
  end.

(** How a finished run of [_process] relates to the handler calls made
    in it: it returns when they all have, and it raises what the last
    of them raised, the ones before having returned. *)
Definition ended_as (cs : list (Handler * Outcome)) (o : Outcome) : Prop :=
  match o with
  | Returns => Forall returned cs
  | Raises x => exists cs' h, cs = cs' ++ [(h, Raises x)] /\ Forall returned cs'
  end.

End LiveVocabulary.

(** * Properties *)

Section Properties.
Context {Data Handler World : Type} `{EqDecision Handler}.
Variable hash : string -> Z.
Variable call : Handler -> @Event Data -> World -> Outcome * World.

Implicit Types (self : @EventEngine Data Handler) (event : @Event Data).
Implicit Types (s : @System Data Handler World) (w : World).
Implicit Types (h handler : Handler) (l hs : list Handler) (T : string).
Implicit Types (d : gmap string (list Handler)).

(** ** Lists *)

Lemma list_remove_first_sublist h l : sublist (list_remove_first h l) l.
Proof.
  induction l as [|y l IH]; simpl; [constructor|].
  case_decide; [by apply sublist_cons | by apply sublist_skip].
Qed.

Lemma list_remove_first_NoDup h l : NoDup l -> NoDup (list_remove_first h l).
Proof. intros Hl. eapply sublist_NoDup; [done | apply list_remove_first_sublist]. Qed.

Lemma NoDup_snoc h l : NoDup l -> h ∉ l -> NoDup (l ++ [h]).
Proof.
  intros Hl Hh. apply NoDup_app. split_and!; [done | | apply NoDup_singleton].
  intros x Hx ->%list_elem_of_singleton. done.
Qed.





(** ** The registry *)



Lemma register_lookup T h self :
  _handlers (register T h self) !! T
  = Some (let l := default [] (_handlers self !! T) in
          if decide (h ∈ l) then l else l ++ [h]).
Proof.
  unfold register, defaultdict_getitem.
  destruct (_handlers self !! T) as [l|] eqn:Hl; simpl.
  - case_decide; simpl; [done | by rewrite lookup_insert_eq].
  - by rewrite lookup_insert_eq.
Qed.


Lemma register_lookup_ne T T' h self :
  T' <> T -> _handlers (register T h self) !! T' = _handlers self !! T'.
Proof.
  intros Hne. unfold register, defaultdict_getitem.
  destruct (_handlers self !! T) as [l|] eqn:Hl; simpl.
  - case_decide; simpl; [done | by rewrite lookup_insert_ne].
  - by rewrite !lookup_insert_ne.
Qed.

Lemma unregister_lookup T h self :
  _handlers (unregister T h self) !! T
  = match after_remove h (default [] (_handlers self !! T)) with
    | [] => None
    | l' => Some l'
    end.
Proof.
  unfold unregister, defaultdict_getitem, after_remove.
  destruct (_handlers self !! T) as [l|] eqn:Hl; simpl.
  - destruct (if decide (h ∈ l) then _ else _) eqn:E; simpl.
    + by rewrite lookup_delete_eq.
    + by rewrite lookup_insert_eq.
  - by rewrite lookup_delete_eq.
Qed.

Lemma unregister_lookup_ne T T' h self :
  T' <> T -> _handlers (unregister T h self) !! T' = _handlers self !! T'.
Proof.
  intros Hne. unfold unregister, defaultdict_getitem.
  destruct (_handlers self !! T) as [l|] eqn:Hl; simpl.
  - destruct (if decide (h ∈ l) then _ else _) eqn:E; simpl.
    + by rewrite lookup_delete_ne, lookup_insert_ne.
    + by rewrite lookup_insert_ne.
  - by rewrite lookup_delete_ne, !lookup_insert_ne.
Qed.

(** The two methods in closed form, the detour through the default
    entry folded away. *)
Lemma register_eq T h self :
  register T h self
  = set_handlers
      (<[T := let l := default [] (_handlers self !! T) in
              if decide (h ∈ l) then l else l ++ [h]]> (_handlers self)) self.
Proof.
  unfold register, defaultdict_getitem.
  destruct (_handlers self !! T) as [l|] eqn:Hl; simpl.
  - case_decide; [by rewrite insert_id | done].
  - by rewrite insert_insert_eq.
Qed.

Lemma unregister_eq T h self :
  unregister T h self
  = set_handlers
      match after_remove h (default [] (_handlers self !! T)) with
      | [] => delete T (_handlers self)
      | l' => <[T := l']> (_handlers self)
      end self.
Proof.
  unfold unregister, defaultdict_getitem, after_remove.
  destruct (_handlers self !! T) as [l|] eqn:Hl; simpl.
  - destruct (if decide (h ∈ l) then _ else _); [by rewrite delete_insert_eq | done].
  - by rewrite !delete_insert_eq.
Qed.

Lemma register_general_handlers T h self :
  _general_handlers (register T h self) = _general_handlers self.
Proof.
  unfold register. destruct (defaultdict_getitem _ _) as [l d].
  by case_decide.
Qed.

Lemma unregister_general_handlers T h self :
  _general_handlers (unregister T h self) = _general_handlers self.
Proof.
  unfold unregister. destruct (defaultdict_getitem _ _) as [l d]. simpl.
  by destruct (if decide (h ∈ l) then _ else _).
Qed.

Lemma register_general_handlers_map h self :
  _handlers (register_general h self) = _handlers self.
Proof. unfold register_general. by case_decide. Qed.

Lemma unregister_general_handlers_map h self :
  _handlers (unregister_general h self) = _handlers self.
Proof. unfold unregister_general. by case_decide. Qed.

Lemma after_remove_NoDup h l : NoDup l -> NoDup (after_remove h l).
Proof. unfold after_remove. case_decide; auto using list_remove_first_NoDup. Qed.

(** *** The registry invariant is kept by the four registry methods *)

Lemma register_registry_ok T h self :
  registry_ok self -> registry_ok (register T h self).
Proof.
  intros [Hmap Hgen]. split; [|by rewrite register_general_handlers].
  intros T' l'. destruct (decide (T' = T)) as [->|Hne].
  - rewrite register_lookup. intros [= <-].
    destruct (_handlers self !! T) as [l|] eqn:Hl; simpl.
    + destruct (Hmap _ _ Hl) as [Hne Hnd]. case_decide; [done|].
      split; [by destruct l | by apply NoDup_snoc].
    + split; [done | apply NoDup_singleton].
  - rewrite register_lookup_ne by done. apply Hmap.
Qed.

Lemma unregister_registry_ok T h self :
  registry_ok self -> registry_ok (unregister T h self).
Proof.
  intros [Hmap Hgen]. split; [|by rewrite unregister_general_handlers].
  intros T' l'. destruct (decide (T' = T)) as [->|Hne].
  - rewrite unregister_lookup.
    destruct (after_remove h _) as [|x l''] eqn:E; [done|]. intros [= <-].
    split; [done|]. rewrite <-E. apply after_remove_NoDup.
    destruct (_handlers self !! T) as [l|] eqn:Hl; simpl; [|constructor].
    by destruct (Hmap _ _ Hl).
  - rewrite unregister_lookup_ne by done. apply Hmap.
Qed.

Lemma register_general_registry_ok h self :
  registry_ok self -> registry_ok (register_general h self).
Proof.
  intros [Hmap Hgen]. split; [by rewrite register_general_handlers_map|].
  unfold register_general. case_decide; [done|]. simpl. by apply NoDup_snoc.
Qed.

Lemma unregister_general_registry_ok h self :
  registry_ok self -> registry_ok (unregister_general h self).
Proof.
  intros [Hmap Hgen]. split; [by rewrite unregister_general_handlers_map|].
  unfold unregister_general. case_decide; [|done]. simpl.
  by apply list_remove_first_NoDup.
Qed.

(** ** Frames of the other methods *)

Lemma same_frame_refl self : same_frame self self.
Proof. by repeat split. Qed.

Lemma start_threads_length indices ts :
  length (start_threads indices ts).2 = length ts.
Proof.
  revert ts. induction indices as [|i indices IH]; intros ts; simpl; [done|].
  destruct (list_position ts i) as [pos|]; [|done].
  destruct (ts !! pos) as [t|]; [|done].
  destruct t; simpl; [|done..].
  by rewrite IH, length_insert.
Qed.

Lemma put_same_frame event self : same_frame self (put hash event self).2.
Proof.
  unfold put. case_decide; [apply same_frame_refl|].
  destruct (list_position _ _) as [pos|]; [|apply same_frame_refl].
  repeat split; simpl. by rewrite length_alter.
Qed.

Lemma start_same_frame self : same_frame self (start self).2.
Proof.
  unfold start.
  pose proof (start_threads_length (range (_n (set_active true self)))
                (_threads (set_active true self))) as Hlen.
  destruct (start_threads _ _) as [o ts]. simpl in Hlen.
  destruct o; [|by repeat split].
  destruct (Thread_start _) as [o' t']. by repeat split.
Qed.

Lemma stop_same_frame self : same_frame self (stop self).2.
Proof.
  unfold stop. destruct (Thread_join _) as [[]|]; by repeat split.
Qed.

Lemma _run_same_frame k s : same_frame (engine s) (engine (_run call k s)).
Proof.
  unfold _run. destruct (_threads (engine s) !! k) as [[]|]; try apply same_frame_refl.
  assert (same_frame (engine s)
            (set_threads (<[k:=Finished]> (_threads (engine s))) (engine s))) as Hdie.
  { repeat split; simpl. by rewrite length_insert. }
  case_decide; [done|].
  destruct (list_position _ _) as [pos|]; [|done].
  destruct (negb _); [done|].
  destruct (_queues (engine s) !! pos) as [[|event queue]|]; try apply same_frame_refl.
  destruct (_process _ _ _ _) as [[called o] w].
  destruct o as [|[]]; repeat split; simpl; by rewrite ?length_insert.
Qed.

Lemma _run_timer_same_frame s : same_frame (engine s) (engine (_run_timer hash s)).
Proof.
  unfold _run_timer. destruct (_timer (engine s)); try apply same_frame_refl.
  assert (same_frame (engine s) (set_timer Finished (engine s))) as Hdie
    by by repeat split.
  destruct (negb _); [done|]. case_decide; [done|].
  pose proof (put_same_frame (mkEvent EVENT_TIMER None) (engine s)) as Hput.
  destruct (put _ _ _) as [[] self']; done.
Qed.

Lemma same_frame_registry_ok self self' :
  same_frame self self' -> registry_ok self -> registry_ok self'.
Proof. intros (Hh & Hg & _) [Hmap Hgen]. split; [by rewrite Hh | by rewrite Hg]. Qed.

Lemma same_frame_shape_ok interval n self self' :
  same_frame self self' -> shape_ok interval n self -> shape_ok interval n self'.
Proof.
  intros (_ & _ & Hi & Hn & Hq & Ht) (Hi' & Hn' & Hq' & Ht').
  repeat split; congruence.
Qed.


(** ** What holds in every reachable state *)

Lemma step_registry_ok a s :
  registry_ok (engine s) -> registry_ok (engine (step hash call a s)).
Proof.
  intros Hok. destruct a; simpl.
  - pose proof (put_same_frame event (engine s)) as Hf.
    destruct (put _ _ _) as [[] self']; by eapply same_frame_registry_ok.
  - by apply register_registry_ok.
  - by apply unregister_registry_ok.
  - by apply register_general_registry_ok.
  - by apply unregister_general_registry_ok.
  - eapply same_frame_registry_ok; [apply start_same_frame | done].
  - eapply same_frame_registry_ok; [apply stop_same_frame | done].
  - eapply same_frame_registry_ok; [apply _run_same_frame | done].
  - eapply same_frame_registry_ok; [apply _run_timer_same_frame | done].
Qed.

Lemma register_shape_ok interval n T h self :
  shape_ok interval n self -> shape_ok interval n (register T h self).
Proof.
  unfold register. destruct (defaultdict_getitem _ _) as [l d]. by case_decide.
Qed.

Lemma unregister_shape_ok interval n T h self :
  shape_ok interval n self -> shape_ok interval n (unregister T h self).
Proof.
  unfold unregister. destruct (defaultdict_getitem _ _) as [l d]. simpl.
  by destruct (if decide (h ∈ l) then _ else _).
Qed.

Lemma step_shape_ok interval n a s :
  shape_ok interval n (engine s) -> shape_ok interval n (engine (step hash call a s)).
Proof.
  intros Hok. destruct a; simpl.
  - pose proof (put_same_frame event (engine s)) as Hf.
    destruct (put _ _ _) as [[] self']; by eapply same_frame_shape_ok.
  - by apply register_shape_ok.
  - by apply unregister_shape_ok.
  - unfold register_general. by case_decide.
  - unfold unregister_general. by case_decide.
  - eapply same_frame_shape_ok; [apply start_same_frame | done].
  - eapply same_frame_shape_ok; [apply stop_same_frame | done].
  - eapply same_frame_shape_ok; [apply _run_same_frame | done].
  - eapply same_frame_shape_ok; [apply _run_timer_same_frame | done].
Qed.

Lemma run_snoc schedule a s :
  run hash call (schedule ++ [a]) s = step hash call a (run hash call schedule s).
Proof. unfold run. by rewrite foldl_app. Qed.

Lemma boot_registry_ok interval n w :
  registry_ok (engine (boot (Handler:=Handler) (Data:=Data) interval n w)).
Proof. split; [intros T l; simpl; by rewrite lookup_empty | constructor]. Qed.

Lemma boot_shape_ok interval n w :
  shape_ok interval n (engine (boot (Handler:=Handler) (Data:=Data) interval n w)).
Proof.
  repeat split; simpl; unfold range; by rewrite length_fmap, length_seqZ.
Qed.

Lemma run_registry_ok schedule interval n w :
  registry_ok (engine (run hash call schedule (boot interval n w))).
Proof.
  induction schedule as [|a schedule IH] using rev_ind.
  - apply boot_registry_ok.
  - rewrite run_snoc. by apply step_registry_ok.
Qed.

Lemma run_shape_ok schedule interval n w :
  shape_ok interval n (engine (run hash call schedule (boot interval n w))).
Proof.
  induction schedule as [|a schedule IH] using rev_ind.
  - apply boot_shape_ok.
  - rewrite run_snoc. by apply step_shape_ok.
Qed.

(** ** Dispatch *)

Lemma call_each_app hs1 hs2 event w :
  call_each call (hs1 ++ hs2) event w
  = let '(called1, o1, w1) := call_each call hs1 event w in
    match o1 with
    | Returns =>
        let '(called2, o2, w2) := call_each call hs2 event w1 in
        (called1 ++ called2, o2, w2)
    | _ => (called1, o1, w1)
    end.
Proof.
  revert w. induction hs1 as [|h hs1 IH]; intros w; simpl.
  - by destruct (call_each call hs2 event w) as [[??]?].
  - destruct (call h event w) as [[|x] w0]; [|done].
    rewrite IH. destruct (call_each call hs1 event w0) as [[called1 [|x]] w1]; [|done].
    by destruct (call_each call hs2 event w1) as [[??]?].
Qed.

(** [_process] runs one comprehension over the type's list and one over
    the general list: together, one pass over [dispatch_list]. *)
Lemma _process_dispatch_list self event w :
  _process call self event w = call_each call (dispatch_list self event) event w.
Proof.
  unfold _process, dispatch_list. rewrite call_each_app.
  destruct (_handlers self !! type event) as [hs|]; simpl.
  - destruct (call_each call hs event w) as [[called1 [|x]] w1]; [|done].
    by destruct (_general_handlers self).
  - by destruct (_general_handlers self).
Qed.




(** ** One iteration of a worker *)






(** ** The claims about dispatch *)



(** ** The claims about the registry *)


(** C4.  From a registry with no entry for [T], [register(T, h)]
    followed by [unregister(T, h)] gives back the engine as it was: the
    entry is deleted, not left empty, and an event of type [T] is
    dispatched to the general handlers only. *)
Theorem C4_register_unregister self T h :
  _handlers self !! T = None ->
  let self' := unregister T h (register T h self) in
  self' = self
  /\ _handlers self' !! T = None
  /\ (forall event w,
        type event = T ->
        _process call self' event w = call_each call (_general_handlers self') event w).
Proof.
  intros Hnone self'.
  assert (self' = self) as ->.
  { unfold self'. rewrite unregister_eq, register_eq, Hnone. simpl.
    rewrite lookup_insert_eq. unfold after_remove. simpl.
    rewrite decide_True by apply list_elem_of_here.
    rewrite decide_True by done.
    rewrite delete_insert_eq, delete_id by done. by destruct self. }
  split_and!; [done..|].
  intros event w HT. rewrite _process_dispatch_list. unfold dispatch_list.
  by rewrite HT, Hnone.
Qed.

(** C7.  After any schedule of calls from a new engine, whatever the
    calls are and however they interleave with the workers and the
    timer, no type is mapped to an empty handler list. *)
Theorem C7_no_empty_entry schedule interval n w0 :
  map_Forall (fun _ l => l <> [])
    (_handlers (engine (run hash call schedule (boot interval n w0)))).
Proof.
  intros T l Hl. destruct (run_registry_ok schedule interval n w0) as [Hmap _].
  by destruct (Hmap _ _ Hl).
Qed.

(** C10.  [register(T, h)] and [unregister(T, h)] leave the general
    handlers and the entry of every other type as they were;
    [register_general(h)] and [unregister_general(h)] leave the whole
    mapping as it was. *)
Theorem C10_registry_frame self T h :
  (_general_handlers (register T h self) = _general_handlers self
   /\ forall T', T' <> T -> _handlers (register T h self) !! T' = _handlers self !! T')
  /\ (_general_handlers (unregister T h self) = _general_handlers self
      /\ forall T', T' <> T -> _handlers (unregister T h self) !! T' = _handlers self !! T')
  /\ _handlers (register_general h self) = _handlers self
  /\ _handlers (unregister_general h self) = _handlers self.
Proof.
  split_and!.
  - apply register_general_handlers.
  - intros T'. apply register_lookup_ne.
  - apply unregister_general_handlers.
  - intros T'. apply unregister_lookup_ne.
  - apply register_general_handlers_map.
  - apply unregister_general_handlers_map.
Qed.

(** ** Shard routing *)

Lemma put_spec interval n self event :
  shape_ok interval n self ->
  1 <= n ->
  0 <= hash (type event) `mod` n < n
  /\ shard_index hash self event = hash (type event) `mod` n
  /\ put hash event self
     = (Returns,
        set_queues (alter (fun queue => queue ++ [event])
                          (Z.to_nat (hash (type event) `mod` n)) (_queues self)) self).
Proof.
  intros (_ & Hn & Hq & _) Hpos.
  assert (0 <= hash (type event) `mod` n < n) as Hrange by (apply Z.mod_pos_bound; lia).
  unfold put, shard_index. rewrite Hn. split_and!; [lia.. | done |].
  rewrite decide_False by lia. unfold list_position.
  by rewrite decide_True by lia.
Qed.

(** With a shard count below 1 there is no queue to route to: [put]
    raises and leaves the engine as it was. *)
Lemma put_without_shards schedule interval n w0 event :
  n <= 0 ->
  let self := engine (run hash call schedule (boot interval n w0)) in
  put hash event self
  = (Raises (if decide (n = 0) then ZeroDivisionError else IndexError), self).
Proof.
  intros Hn self.
  destruct (run_shape_ok schedule interval n w0) as (_ & Hn' & Hq & _).
  fold self in Hn', Hq. unfold put, list_position. rewrite Hn', Hq.
  case_decide; [done|].
  rewrite decide_False by lia. by rewrite decide_False by lia.
Qed.

(** C6.  On an engine built with [n >= 1] shards, in any reachable
    state, [put(e)] returns after appending [e] to the queue at index
    [hash(e.type) % n], which exists, and changes nothing else; an event
    of the same type goes to the queue at the same index. *)
Theorem C6_put_routing schedule interval n w0 event :
  1 <= n ->
  let self := engine (run hash call schedule (boot interval n w0)) in
  let index := hash (type event) `mod` n in
  0 <= index < n
  /\ shard_index hash self event = index
  /\ put hash event self
     = (Returns,
        set_queues (alter (fun queue => queue ++ [event]) (Z.to_nat index) (_queues self))
                   self)
  /\ (exists queue,
        _queues self !! Z.to_nat index = Some queue
        /\ _queues (put hash event self).2 !! Z.to_nat index = Some (queue ++ [event]))
  /\ (forall pos,
        pos <> Z.to_nat index ->
        _queues (put hash event self).2 !! pos = _queues self !! pos)
  /\ (forall event',
        type event' = type event ->
        shard_index hash self event' = index
        /\ exists queue,
             _queues self !! Z.to_nat index = Some queue
             /\ _queues (put hash event' self).2 !! Z.to_nat index = Some (queue ++ [event'])).
Proof.
  intros Hn self index.
  pose proof (run_shape_ok schedule interval n w0) as Hshape. fold self in Hshape.
  assert (forall e, type e = type event ->
            shard_index hash self e = index
            /\ put hash e self
               = (Returns, set_queues (alter (fun queue => queue ++ [e]) (Z.to_nat index)
                                             (_queues self)) self)) as Hput.
  { intros e He. destruct (put_spec interval n self e Hshape Hn) as (_ & Hi & Hp).
    rewrite He in Hi, Hp. done. }
  destruct (put_spec interval n self event Hshape Hn) as (Hrange & _ & _).
  destruct Hshape as (_ & _ & Hq & _).
  destruct (lookup_lt_is_Some_2 (_queues self) (Z.to_nat index)) as [queue Hqueue];
    [fold index in Hrange; lia|].
  destruct (Hput event eq_refl) as [Hi Hp].
  split_and!; [lia.. | done | done | | |].
  - exists queue. split; [done|]. rewrite Hp. simpl.
    by rewrite list_lookup_alter_eq, Hqueue.
  - intros pos Hne. rewrite Hp. simpl. by rewrite list_lookup_alter_ne.
  - intros event' He. destruct (Hput event' He) as [Hi' Hp']. split; [done|].
    exists queue. split; [done|]. rewrite Hp'. simpl.
    by rewrite list_lookup_alter_eq, Hqueue.
Qed.

(** ** Traces *)










(** ** Per-shard order *)



Section Blocks.
Variable P : @Event Data * list Handler -> Prop.





End Blocks.






(** ** No order across shards *)





(** ** Lifecycle *)

(** C8 (as amended).  [__init__] checks neither argument: for every
    interval and shard count, positive or not, it returns an engine
    that is not active and none of whose threads is started, with the
    two settings stored as given, [max(n, 0)] empty queues and as many
    workers, and an empty registry. *)
Theorem C8_init_accepts_everything interval n :
  let r := __init__ (Data:=Data) (Handler:=Handler) interval n in
  r.1 = Returns
  /\ never_started r.2
  /\ _interval r.2 = interval
  /\ _n r.2 = n
  /\ _queues r.2 = replicate (Z.to_nat n) []
  /\ length (_threads r.2) = Z.to_nat n
  /\ _handlers r.2 = ∅
  /\ _general_handlers r.2 = [].
Proof.
  simpl. split_and!; try done.
  - repeat split. apply Forall_fmap, Forall_true. done.
  - unfold range, seqZ. rewrite <-list_fmap_compose.
    apply list_eq. intros i. rewrite list_lookup_fmap.
    destruct (decide (i < Z.to_nat n)%nat) as [Hi|Hi].
    + rewrite lookup_replicate_2 by done. by rewrite lookup_seq_lt by done.
    + rewrite (lookup_ge_None_2 (replicate _ _)) by (rewrite length_replicate; lia).
      by rewrite lookup_seq_ge by lia.
  - unfold range. by rewrite length_fmap, length_seqZ.
Qed.

Lemma set_active_same self : set_active (_active self) self = self.
Proof. by destruct self. Qed.

Lemma join_threads_finished indices ts :
  Forall (fun i => 0 <= i < Z.of_nat (length ts)) indices ->
  Forall (fun t => t = Finished) ts ->
  join_threads indices ts = Done Returns.
Proof.
  intros Hrange Hfin. induction Hrange as [|i indices Hi _ IH]; [done|]. simpl.
  unfold list_getitem, list_position. rewrite decide_True by done. simpl.
  destruct (lookup_lt_is_Some_2 ts (Z.to_nat i)) as [t Ht]; [lia|].
  rewrite Ht. rewrite (proj1 (Forall_lookup _ _) Hfin _ _ Ht). done.
Qed.



(** C9 (as amended).  In any reachable state: [stop()] on an engine
    that was started and has been stopped returns without error and
    changes nothing; [stop()] on an engine that was never started
    raises [RuntimeError], from the [join] of the timer thread, and
    changes nothing. *)
Theorem C9_stop_when_stopped schedule interval n w0 :
  let self := engine (run hash call schedule (boot interval n w0)) in
  (stopped_after_run self -> stop self = (Done Returns, self))
  /\ (never_started self -> stop self = (Done (Raises RuntimeError), self)).
Proof.
  intros self.
  destruct (run_shape_ok schedule interval n w0) as (_ & Hn & _ & Ht).
  fold self in Hn, Ht. split.
  - intros (Hact & Htimer & Hthreads). unfold stop. simpl. rewrite Htimer. simpl.
    rewrite join_threads_finished, <-Hact, set_active_same; [done | | done].
    apply Forall_forall. intros i Hi%elem_of_seqZ. lia.
  - intros (Hact & Htimer & _). unfold stop. simpl. rewrite Htimer. simpl.
    by rewrite <-Hact, set_active_same.
Qed.

End Properties.

(** * The claims on the concrete program *)

Section Concrete.
Import Demo.


(** The ordering scenario of the specification: one shard, [A]
    registered for "X", two "X" events put before [start]: [A] gets
    payload 1 and then payload 2. *)
Example scenario_two_events_in_order :
  trace (run Demo.hash Demo.call
           [CallRegister "X" A; CallPut (X 1); CallPut (X 2); CallStart;
            WorkerIter 0; WorkerIter 0] (boot 1 1 0%nat))
  = [Enq 0 (X 1); Enq 0 (X 2);
     Deq 0 (X 1); Invoke 0 A (X 1);
     Deq 0 (X 2); Invoke 0 A (X 2)].
Proof. vm_compute. reflexivity. Qed.

(** A handler that raises [queue.Empty] cuts the dispatch short as any
    raising handler does, but the worker survives it and takes the next
    event. *)
Example scenario_empty_is_swallowed :
  let s := run Demo.hash Demo.call
             [CallRegister "Y" Quiet; CallRegister "Y" B; CallStart;
              CallPut Y; CallPut Y; WorkerIter 0; WorkerIter 0] (boot 1 1 0%nat) in
  trace s = [Enq 0 Y; Enq 0 Y; Deq 0 Y; Invoke 0 Quiet Y; Deq 0 Y; Invoke 0 Quiet Y]
  /\ _threads (engine s) = [Alive].
Proof. vm_compute. split; reflexivity. Qed.

(** [stop()] right after [start()]: the caller waits in [join] until
    the timer and the workers have seen the cleared flag; then it
    returns. *)
Example scenario_stop_after_start :
  let s1 := run Demo.hash Demo.call [CallStart] (boot 1 2 0%nat) in
  let s2 := run Demo.hash Demo.call [CallStop; TimerIter; WorkerIter 0; WorkerIter 1] s1 in
  (stop (engine s1)).1 = Waits
  /\ (stop (engine s2)).1 = Done Returns
  /\ trace s2 = [].
Proof. vm_compute. split_and!; reflexivity. Qed.






Lemma C4_witness :
  let self := engine (boot (Data:=Z) (Handler:=handler) (World:=nat) 1 1 0%nat) in
  let self' := unregister "X" A (register "X" A self) in
  self' = self
  /\ _handlers self' !! "X" = None
  /\ (forall event w,
        type event = "X" ->
        _process Demo.call self' event w
        = call_each Demo.call (_general_handlers self') event w).
Proof.
  apply (C4_register_unregister Demo.call). reflexivity.
Defined.


Lemma C6_witness :
  let self := engine (run Demo.hash Demo.call [CallStart; CallPut Y] (boot 1 5 0%nat)) in
  shard_index Demo.hash self (X 7) = 1
  /\ _queues (put Demo.hash (X 7) self).2 = [[]; [Y; X 7]; []; []; []].
Proof.
  destruct (C6_put_routing Demo.hash Demo.call [CallStart; CallPut Y] 1 5 0%nat (X 7))
    as (_ & Hindex & Hput & _); [lia|].
  split; [exact Hindex|]. rewrite Hput. reflexivity.
Defined.

Lemma C7_witness :
  map_Forall (fun _ l => l <> [])
    (_handlers (engine (run Demo.hash Demo.call [CallRegister "X" A; CallUnregister "X" A;
                              CallUnregister "Y" B; CallRegister "Y" B]
                             (boot 1 1 0%nat)))).
Proof. apply (C7_no_empty_entry Demo.hash Demo.call). Defined.

(** C8 fails as stated: an interval of [-1] and a shard count of [0]
    are accepted. *)
Lemma C8_counterexample :
  (-1 <= 0 \/ 0 < 1)
  /\ (__init__ (Data:=Z) (Handler:=handler) (-1) 0).1 = Returns
  /\ ~ exists x, (__init__ (Data:=Z) (Handler:=handler) (-1) 0).1 = Raises x.
Proof. split_and!; [lia | done | by intros [x ?]]. Qed.

(** C9 fails as stated: [stop()] on an engine that was never started
    raises. *)
Lemma C9_counterexample :
  let self := engine (boot (Data:=Z) (Handler:=handler) (World:=nat) 1 5 0%nat) in
  never_started self
  /\ (stop self).1 = Done (Raises RuntimeError)
  /\ (stop self).1 <> Done Returns.
Proof. vm_compute. split_and!; try done. repeat constructor. Qed.

Lemma C9_witness :
  let self := engine (run Demo.hash Demo.call [CallStart; CallPut Y; CallStop; TimerIter;
                            WorkerIter 0; WorkerIter 1] (boot 1 2 0%nat)) in
  stop self = (Done Returns, self).
Proof.
  intros self.
  destruct (C9_stop_when_stopped Demo.hash Demo.call
              [CallStart; CallPut Y; CallStop; TimerIter; WorkerIter 0; WorkerIter 1]
              1 2 0%nat) as [Hstopped _].
  apply Hstopped. vm_compute. repeat constructor.
Defined.

Lemma C10_witness :
  let self := engine (run Demo.hash Demo.call [CallRegister "X" A; CallRegister "Y" B;
                            CallRegisterGeneral A] (boot 1 1 0%nat)) in
  _handlers (register "X" B self) !! "Y" = _handlers self !! "Y"
  /\ _handlers (unregister "X" A self) !! "Y" = _handlers self !! "Y".
Proof.
  intros self.
  destruct (C10_registry_frame self "X" B) as ((_ & Hreg) & _).
  destruct (C10_registry_frame self "X" A) as (_ & (_ & Hunreg) & _).
  split; [apply Hreg | apply Hunreg]; discriminate.
Defined.

End Concrete.

(** * Further properties of the engine *)

Section Further.
Context {Data Handler World : Type} `{EqDecision Handler}.
Variable hash : string -> Z.
Variable call : Handler -> @Event Data -> World -> Outcome * World.

Implicit Types (self : @EventEngine Data Handler) (event : @Event Data).
Implicit Types (s : @System Data Handler World) (w : World).
Implicit Types (h handler : Handler) (l hs : list Handler) (T : string).

(** ** More on the registry *)

Lemma list_remove_first_snoc h l : h ∉ l -> list_remove_first h (l ++ [h]) = l.
Proof.
  induction l as [|y l IH]; simpl.
  - intros _. by rewrite decide_True by done.
  - intros [Hy Hl]%not_elem_of_cons. rewrite decide_False by done. by rewrite IH.
Qed.

Lemma filter_ne_id h l : h ∉ l -> filter (fun x => x <> h) l = l.
Proof.
  induction l as [|y l IH]; [done|].
  intros [Hy Hl]%not_elem_of_cons. rewrite filter_cons.
  rewrite decide_True by done. by rewrite IH.
Qed.

Lemma list_remove_first_filter h l :
  NoDup l -> list_remove_first h l = filter (fun x => x <> h) l.
Proof.
  induction 1 as [|y l Hy Hl IH]; [done|]. simpl. rewrite filter_cons.
  destruct (decide (h = y)) as [->|Hne].
  - rewrite decide_False by (intros Hn; by apply Hn). by rewrite filter_ne_id.
  - rewrite decide_True by done. by rewrite IH.
Qed.

Lemma after_remove_filter h l :
  NoDup l -> after_remove h l = filter (fun x => x <> h) l.
Proof.
  intros Hl. unfold after_remove. case_decide.
  - by apply list_remove_first_filter.
  - by rewrite filter_ne_id.
Qed.

(** X1.  In any reachable state, [unregister(T, h)] for a handler that
    is not registered for [T] changes nothing; this includes a type
    that has no entry, whose entry the lookup creates and the method
    deletes again. *)
Theorem X1_unregister_absent schedule interval n w0 T h :
  let self := engine (run hash call schedule (boot interval n w0)) in
  h ∉ default [] (_handlers self !! T) ->
  unregister T h self = self.
Proof.
  intros self Hh.
  destruct (run_registry_ok hash call schedule interval n w0) as [Hmap _].
  fold self in Hmap. rewrite unregister_eq. unfold after_remove.
  rewrite decide_False by done.
  destruct (_handlers self !! T) as [l|] eqn:Hl; simpl.
  - destruct (Hmap _ _ Hl) as [Hne _]. destruct l as [|x l]; [done|].
    rewrite insert_id by done. by destruct self.
  - rewrite delete_id by done. by destruct self.
Qed.

(** X2.  In any reachable state, registering a handler that is not yet
    registered for [T] and unregistering it again gives back the engine
    as it was, whether or not [T] had other handlers. *)
Theorem X2_register_unregister_roundtrip schedule interval n w0 T h :
  let self := engine (run hash call schedule (boot interval n w0)) in
  h ∉ default [] (_handlers self !! T) ->
  unregister T h (register T h self) = self.
Proof.
  intros self Hh.
  destruct (run_registry_ok hash call schedule interval n w0) as [Hmap _].
  fold self in Hmap. rewrite unregister_eq, register_eq. simpl.
  rewrite lookup_insert_eq. simpl. rewrite decide_False by done.
  unfold after_remove. rewrite decide_True by (apply elem_of_app; right; apply list_elem_of_here).
  rewrite list_remove_first_snoc by done.
  destruct (_handlers self !! T) as [l|] eqn:Hl; simpl.
  - destruct (Hmap _ _ Hl) as [Hne _]. destruct l as [|x l]; [done|].
    rewrite insert_insert_eq, insert_id by done. by destruct self.
  - rewrite delete_insert_eq, delete_id by done. by destruct self.
Qed.

(** X3.  In any reachable state, [unregister(T, h)] leaves under [T]
    exactly the other handlers of [T] in their order, and
    [unregister_general(h)] does the same to the general handlers: [h]
    is gone for good, no second copy can remain. *)
Theorem X3_unregister_removes schedule interval n w0 T h :
  let self := engine (run hash call schedule (boot interval n w0)) in
  default [] (_handlers (unregister T h self) !! T)
  = filter (fun x => x <> h) (default [] (_handlers self !! T))
  /\ ~ (h ∈ default [] (_handlers (unregister T h self) !! T))
  /\ _general_handlers (unregister_general h self)
     = filter (fun x => x <> h) (_general_handlers self)
  /\ ~ (h ∈ _general_handlers (unregister_general h self)).
Proof.
  intros self.
  destruct (run_registry_ok hash call schedule interval n w0) as [Hmap Hgen].
  fold self in Hmap, Hgen.
  assert (default [] (_handlers (unregister T h self) !! T)
          = filter (fun x => x <> h) (default [] (_handlers self !! T))) as Htype.
  { rewrite unregister_lookup, <-after_remove_filter.
    - by destruct (after_remove h _).
    - destruct (_handlers self !! T) as [l|] eqn:Hl; simpl; [|constructor].
      by destruct (Hmap _ _ Hl). }
  assert (_general_handlers (unregister_general h self)
          = filter (fun x => x <> h) (_general_handlers self)) as Hgeneral.
  { unfold unregister_general. case_decide; simpl.
    - by apply list_remove_first_filter.
    - by rewrite filter_ne_id. }
  split_and!; [done | | done |].
  - rewrite Htype. intros [Hne _]%list_elem_of_filter. by apply Hne.
  - rewrite Hgeneral. intros [Hne _]%list_elem_of_filter. by apply Hne.
Qed.

(** X4.  After any schedule of calls from a new engine no handler list
    holds a handler twice, neither the list of a type nor the general
    list: "every function can only be registered once". *)
Theorem X4_no_duplicate_handlers schedule interval n w0 :
  let self := engine (run hash call schedule (boot interval n w0)) in
  map_Forall (fun _ l => NoDup l) (_handlers self)
  /\ NoDup (_general_handlers self).
Proof.
  intros self.
  destruct (run_registry_ok hash call schedule interval n w0) as [Hmap Hgen].
  split; [|done]. intros T l Hl. by destruct (Hmap _ _ Hl).
Qed.

(** X5.  The general handlers by themselves: registering twice is
    registering once, and registering a handler that was not general
    and unregistering it again gives back the engine as it was. *)
Theorem X5_general_roundtrip self h :
  register_general h (register_general h self) = register_general h self
  /\ (h ∉ _general_handlers self ->
      unregister_general h (register_general h self) = self).
Proof.
  split.
  - assert (h ∈ _general_handlers (register_general h self)) as Hin.
    { unfold register_general. case_decide; [done|]. simpl.
      apply elem_of_app. right. apply list_elem_of_here. }
    unfold register_general at 1. by rewrite decide_True by done.
  - intros Hh. unfold register_general. rewrite decide_False by done.
    unfold unregister_general. simpl.
    rewrite decide_True by (apply elem_of_app; right; apply list_elem_of_here).
    rewrite list_remove_first_snoc by done. by destruct self.
Qed.

(** X6.  Registering or unregistering a handler for a type [T] does not
    change the dispatch of an event of any other type: same calls, same
    outcome, same program state. *)
Theorem X6_dispatch_of_other_types self T h event w :
  type event <> T ->
  _process call (register T h self) event w = _process call self event w
  /\ _process call (unregister T h self) event w = _process call self event w.
Proof.
  intros Hne. unfold _process.
  rewrite register_lookup_ne, unregister_lookup_ne by done.
  by rewrite register_general_handlers, unregister_general_handlers.
Qed.

(** ** More on the lifecycle *)


Lemma range_seq n : range n = (fun i : nat => Z.of_nat i + 0) <$> seq 0 (Z.to_nat n).
Proof. done. Qed.

Lemma start_threads_fresh j m :
  start_threads ((fun i : nat => Z.of_nat i + 0) <$> seq j m)
                (replicate j Alive ++ replicate m Initial)
  = (Returns, replicate (j + m) Alive).
Proof.
  revert j. induction m as [|m IH]; intros j; simpl.
  - by rewrite app_nil_r, Nat.add_0_r.
  - unfold list_position.
    rewrite decide_True
      by (rewrite length_app, !length_replicate; simpl; lia).
    replace (Z.to_nat (Z.of_nat j + 0)) with j by lia.
    rewrite lookup_app_r by (rewrite length_replicate; lia).
    rewrite length_replicate, Nat.sub_diag. simpl.
    rewrite insert_app_r_alt by (rewrite length_replicate; lia).
    rewrite length_replicate, Nat.sub_diag. simpl.
    specialize (IH (S j)). rewrite replicate_S_end, <-app_assoc in IH. simpl in IH.
    etrans; [exact IH|]. by rewrite Nat.add_succ_r.
Qed.

Lemma Forall_eq_replicate {A} (x : A) (xs : list A) :
  Forall (fun y => y = x) xs -> xs = replicate (length xs) x.
Proof. induction 1 as [|y xs -> _ IH]; simpl; [done | by f_equal]. Qed.

Lemma start_threads_started indices (ts : list Thread) :
  Forall (fun t => t <> Initial) ts ->
  (start_threads indices ts).2 = ts
  /\ (indices <> [] ->
      Forall (fun i => 0 <= i < Z.of_nat (length ts)) indices ->
      (start_threads indices ts).1 = Raises RuntimeError).
Proof.
  intros Hts. destruct indices as [|i indices]; [done|]. simpl.
  destruct (list_position ts i) as [pos|] eqn:Hpos.
  - destruct (ts !! pos) as [t|] eqn:Ht.
    + pose proof (proj1 (Forall_lookup _ _) Hts _ _ Ht) as Hne.
      by destruct t.
    + split; [done|]. intros _ [Hi _]%Forall_cons.
      unfold list_position in Hpos. rewrite decide_True in Hpos by done.
      injection Hpos as <-. apply lookup_ge_None in Ht. lia.
  - split; [done|]. intros _ [Hi _]%Forall_cons.
    unfold list_position in Hpos. by rewrite decide_True in Hpos by done.
Qed.

Lemma start_fresh interval n self :
  shape_ok interval n self ->
  never_started self ->
  start self
  = (Returns,
     set_timer Alive (set_threads (replicate (Z.to_nat n) Alive) (set_active true self))).
Proof.
  intros (_ & Hn & _ & Hlen) (Hact & Htimer & Hthreads).
  apply Forall_eq_replicate in Hthreads. rewrite Hlen in Hthreads.
  unfold start. simpl. rewrite Hn, Hthreads, range_seq.
  pose proof (start_threads_fresh 0 (Z.to_nat n)) as Hstart. simpl in Hstart.
  rewrite Hstart. simpl. by rewrite Htimer.
Qed.

Lemma start_started interval n self :
  shape_ok interval n self ->
  started self ->
  start self = (Raises RuntimeError, set_active true self).
Proof.
  intros (_ & Hn & _ & Hlen) [Htimer Hthreads].
  unfold start.
  destruct (start_threads_started (range (_n (set_active true self)))
              (_threads (set_active true self)) Hthreads) as [Hsame Hraise].
  destruct (start_threads _ _) as [o ts] eqn:E. simpl in Hsame, Hraise. subst ts.
  destruct (decide (range (_n (set_active true self)) = [])) as [Hempty|Hne].
  - rewrite Hempty in E. simpl in E. injection E as <-. simpl.
    destruct (_timer self) eqn:Ht; [done | |]; simpl; f_equal;
      unfold set_timer, set_threads, set_active; simpl; by rewrite Ht.
  - rewrite Hraise; [done.. |].
    apply Forall_forall. intros i Hi%elem_of_seqZ. simpl in *. lia.
Qed.

(** X7.  [start()] on an engine that was never started returns, and
    what it changes is this: the flag is set and every worker and the
    timer are alive.  Queues and registry are as they were, so events
    put and handlers registered before [start()] are kept. *)
Theorem X7_start_fresh schedule interval n w0 :
  let self := engine (run hash call schedule (boot interval n w0)) in
  never_started self ->
  start self
  = (Returns,
     set_timer Alive (set_threads (replicate (Z.to_nat n) Alive) (set_active true self))).
Proof. intros self. apply (start_fresh interval n), run_shape_ok. Qed.

(** X8.  [start()] on an engine that has been started before, running
    or stopped, raises [RuntimeError] ("threads can only be started
    once") without touching a thread; but it has set the flag by then.
    An engine cannot be started again. *)
Theorem X8_start_again_raises schedule interval n w0 :
  let self := engine (run hash call schedule (boot interval n w0)) in
  started self ->
  start self = (Raises RuntimeError, set_active true self).
Proof. intros self. apply (start_started interval n), run_shape_ok. Qed.

(** What one step does to the lifecycle fields. *)

Lemma registry_call_lifecycle T h self self' :
  self' = register T h self \/ self' = unregister T h self
  \/ self' = register_general h self \/ self' = unregister_general h self ->
  _threads self' = _threads self /\ _timer self' = _timer self
  /\ _active self' = _active self /\ _queues self' = _queues self.
Proof.
  intros [-> | [-> | [-> | ->]]].
  - by rewrite register_eq.
  - by rewrite unregister_eq.
  - unfold register_general. by case_decide.
  - unfold unregister_general. by case_decide.
Qed.

Lemma put_lifecycle event self :
  _threads (put hash event self).2 = _threads self
  /\ _timer (put hash event self).2 = _timer self
  /\ _active (put hash event self).2 = _active self.
Proof.
  unfold put. case_decide; [done|]. by destruct (list_position _ _).
Qed.

Lemma stop_state self : (stop self).2 = set_active false self.
Proof. unfold stop. by destruct (Thread_join _) as [[]|]. Qed.

Lemma _run_lifecycle k s :
  (_threads (engine (_run call k s)) = _threads (engine s)
   \/ _threads (engine (_run call k s)) = <[k := Finished]> (_threads (engine s)))
  /\ _timer (engine (_run call k s)) = _timer (engine s)
  /\ _active (engine (_run call k s)) = _active (engine s).
Proof.
  unfold _run. destruct (_threads (engine s) !! k) as [[]|]; try by auto.
  case_decide; [by auto|].
  destruct (list_position _ _) as [pos|]; [|by auto].
  destruct (negb (_active (engine s))); [by auto|].
  destruct (_queues (engine s) !! pos) as [[|event queue]|]; try by auto.
  destruct (_process _ _ _ _) as [[called o] w].
  destruct o as [|[]]; simpl; auto.
Qed.

Lemma _run_timer_lifecycle s :
  _threads (engine (_run_timer hash s)) = _threads (engine s)
  /\ (_timer (engine (_run_timer hash s)) = _timer (engine s)
      \/ _timer (engine (_run_timer hash s)) = Finished).
Proof.
  unfold _run_timer. destruct (_timer (engine s)) eqn:E; try by auto.
  destruct (negb (_active (engine s))); [by auto|]. case_decide; [by auto|].
  pose proof (put_lifecycle (mkEvent EVENT_TIMER None) (engine s)) as (Ht & Htimer & _).
  destruct (put _ _ _) as [[] self']; simpl in *; [|by auto].
  split; [done|]. left. congruence.
Qed.

Lemma Forall_insert_finished (P : Thread -> Prop) k (ts : list Thread) :
  P Finished -> Forall P ts -> Forall P (<[k := Finished]> ts).
Proof. intros HP Hts. by apply Forall_insert. Qed.

Lemma step_lifecycle interval n a s :
  shape_ok interval n (engine s) ->
  never_started (engine s) \/ started (engine s) ->
  never_started (engine (step hash call a s)) \/ started (engine (step hash call a s)).
Proof.
  intros Hshape Hlife.
  assert (forall self',
            _threads self' = _threads (engine s) ->
            _timer self' = _timer (engine s) ->
            _active self' = _active (engine s) ->
            never_started self' \/ started self') as Hsame.
  { intros self' Ht Htimer Hact. unfold never_started, started.
    rewrite Ht, Htimer, Hact. exact Hlife. }
  destruct a; simpl.
  - pose proof (put_lifecycle event (engine s)) as (Ht & Htimer & Hact).
    destruct (put _ _ _) as [[] self']; by apply Hsame.
  - edestruct (registry_call_lifecycle type0 handler (engine s)) as (? & ? & ? & _);
      [by left | by apply Hsame].
  - edestruct (registry_call_lifecycle type0 handler (engine s)) as (? & ? & ? & _);
      [right; by left | by apply Hsame].
  - edestruct (registry_call_lifecycle EVENT_TIMER handler (engine s)) as (? & ? & ? & _);
      [right; right; by left | by apply Hsame].
  - edestruct (registry_call_lifecycle EVENT_TIMER handler (engine s)) as (? & ? & ? & _);
      [right; right; by right | by apply Hsame].
  - right. destruct Hlife as [Hfresh|Hstarted].
    + rewrite (start_fresh interval n) by done. simpl. split; [done|].
      apply Forall_replicate. done.
    + by rewrite (start_started interval n).
  - rewrite stop_state. destruct Hlife as [(Hact & Htimer & Ht)|Hstarted]; [left|right]; done.
  - destruct Hlife as [(Hact & Htimer & Hinit)|[Hs1 Hs2]].
    + left. assert (_run call k s = s) as ->; [|done].
      unfold _run. destruct (_threads (engine s) !! k) as [t|] eqn:Hk; [|done].
      by rewrite (proj1 (Forall_lookup _ _) Hinit _ _ Hk).
    + right. destruct (_run_lifecycle k s) as ([Ht|Ht] & Htimer & Hact).
      * split; [by rewrite Htimer | by rewrite Ht].
      * split; [by rewrite Htimer|]. rewrite Ht. by apply Forall_insert_finished.
  - destruct Hlife as [(Hact & Hti & Hth)|[Hs1 Hs2]].
    + left. assert (_run_timer hash s = s) as ->; [|done].
      unfold _run_timer. by rewrite Hti.
    + right. destruct (_run_timer_lifecycle s) as (Ht & [Htimer|Htimer]).
      * split; [by rewrite Htimer | by rewrite Ht].
      * split; [by rewrite Htimer | by rewrite Ht].
Qed.

(** X9.  After any schedule of calls the engine is in one of two
    conditions: never started (flag clear, no thread started) or
    started (every worker and the timer have left their initial state).
    [start()] is all or nothing: no schedule leaves some threads
    started and others not. *)
Theorem X9_started_or_not schedule interval n w0 :
  let self := engine (run hash call schedule (boot interval n w0)) in
  never_started self \/ started self.
Proof.
  induction schedule as [|a schedule IH] using rev_ind.
  - left. simpl. repeat split. apply Forall_fmap, Forall_true. done.
  - simpl. rewrite run_snoc. eapply step_lifecycle; [apply run_shape_ok | exact IH].
Qed.

(** ** Shutdown *)















(** ** Workers and the timer *)



(** X14.  A live timer of an active engine ends at its next iteration
    without having put an event when the interval is negative ([sleep]
    raises [ValueError]) or when the engine has no shard ([put]
    raises): no timer event is produced, and nothing reports it. *)
Theorem X14_timer_dies schedule interval n w0 :
  let s := run hash call schedule (boot interval n w0) in
  interval < 0 \/ n <= 0 ->
  _timer (engine s) = Alive ->
  _active (engine s) = true ->
  _run_timer hash s = mkSystem (set_timer Finished (engine s)) (world s) (trace s).
Proof.
  intros s Hbad Htimer Hact.
  destruct (run_shape_ok hash call schedule interval n w0) as (Hint & Hn & Hq & _).
  fold s in Hint, Hn, Hq.
  unfold _run_timer. rewrite Htimer, Hact, Hint. simpl.
  case_decide; [done|]. destruct Hbad as [?|Hn0]; [lia|].
  unfold put, list_position. rewrite Hn, Hq.
  case_decide; [done|].
  rewrite decide_False by lia. by rewrite decide_False by lia.
Qed.




(** X15.  What [__init__] sets up is never changed: after any schedule
    of calls the interval and the shard count are those given, and
    there are exactly [max(n, 0)] queues and as many workers. *)
Theorem X15_shape_is_fixed schedule interval n w0 :
  let self := engine (run hash call schedule (boot interval n w0)) in
  _interval self = interval
  /\ _n self = n
  /\ length (_queues self) = Z.to_nat n
  /\ length (_threads self) = Z.to_nat n.
Proof. apply run_shape_ok. Qed.

(** X17.  An engine built with a shard count below 1 accepts no event:
    [put] raises [ZeroDivisionError] when the count is 0 and
    [IndexError] when it is negative, and leaves the engine as it was. *)
Theorem X17_put_without_shards schedule interval n w0 event :
  n <= 0 ->
  let self := engine (run hash call schedule (boot interval n w0)) in
  put hash event self
  = (Raises (if decide (n = 0) then ZeroDivisionError else IndexError), self).
Proof.
  intros Hn self.
  destruct (run_shape_ok hash call schedule interval n w0) as (_ & Hn' & Hq & _).
  fold self in Hn', Hq. unfold put, list_position. rewrite Hn', Hq.
  case_decide; [done|].
  rewrite decide_False by lia. by rewrite decide_False by lia.
Qed.



End Further.

(** * The further properties on the concrete program *)

Section FurtherConcrete.
Import Demo.

(** Membership in an explicit list of other constructors. *)
Ltac not_listed H :=
  vm_compute in H;
  repeat (apply elem_of_cons in H as [H|H]; [discriminate H|]);
  by apply elem_of_nil in H.

Lemma X1_witness :
  let self := engine (run Demo.hash Demo.call [CallRegister "X" A] (boot 1 1 0%nat)) in
  unregister "X" B self = self /\ unregister "Y" A self = self.
Proof.
  split.
  - apply (X1_unregister_absent Demo.hash Demo.call [CallRegister "X" A] 1 1 0%nat "X" B).
    intros Hin. not_listed Hin.
  - apply (X1_unregister_absent Demo.hash Demo.call [CallRegister "X" A] 1 1 0%nat "Y" A).
    intros Hin. not_listed Hin.
Defined.

Lemma X2_witness :
  let self := engine (run Demo.hash Demo.call [CallRegister "X" A] (boot 1 1 0%nat)) in
  unregister "X" B (register "X" B self) = self.
Proof.
  apply (X2_register_unregister_roundtrip Demo.hash Demo.call
           [CallRegister "X" A] 1 1 0%nat "X" B).
  intros Hin. not_listed Hin.
Defined.

Lemma X5_witness :
  let self := engine (run Demo.hash Demo.call [CallRegisterGeneral A] (boot 1 1 0%nat)) in
  unregister_general B (register_general B self) = self.
Proof.
  intros self. destruct (X5_general_roundtrip self B) as [_ Hround].
  apply Hround. intros Hin. not_listed Hin.
Defined.

Lemma X6_witness :
  let self := engine (run Demo.hash Demo.call [CallRegister "Y" B] (boot 1 1 0%nat)) in
  _process Demo.call (register "X" A self) Y 0%nat = _process Demo.call self Y 0%nat
  /\ _process Demo.call (unregister "X" A self) Y 0%nat = _process Demo.call self Y 0%nat.
Proof.
  intros self. apply (X6_dispatch_of_other_types Demo.call self "X" A Y 0%nat).
  discriminate.
Defined.

Lemma X7_witness :
  let self := engine (run Demo.hash Demo.call [CallPut Y; CallRegister "Y" A]
                        (boot 1 2 0%nat)) in
  start self
  = (Returns,
     set_timer Alive (set_threads (replicate (Z.to_nat 2) Alive) (set_active true self))).
Proof.
  apply (X7_start_fresh Demo.hash Demo.call [CallPut Y; CallRegister "Y" A] 1 2 0%nat).
  vm_compute. repeat constructor.
Defined.

Lemma X8_witness :
  let self := engine (run Demo.hash Demo.call [CallStart; CallStop] (boot 1 2 0%nat)) in
  start self = (Raises RuntimeError, set_active true self).
Proof.
  apply (X8_start_again_raises Demo.hash Demo.call [CallStart; CallStop] 1 2 0%nat).
  split; [discriminate|]. vm_compute. repeat constructor; discriminate.
Defined.





Lemma X14_witness :
  let s := run Demo.hash Demo.call [CallStart] (boot (-1) 2 0%nat) in
  _run_timer Demo.hash s = mkSystem (set_timer Finished (engine s)) (world s) (trace s).
Proof.
  apply (X14_timer_dies Demo.hash Demo.call [CallStart] (-1) 2 0%nat);
    [left; lia | reflexivity | reflexivity].
Defined.


Lemma X17_witness :
  let self := engine (boot (Data:=Z) (Handler:=handler) (World:=nat) 1 0 0%nat) in
  put Demo.hash Y self = (Raises ZeroDivisionError, self)
  /\ put Demo.hash Y (engine (boot (Data:=Z) (Handler:=handler) (World:=nat) 1 (-3) 0%nat))
     = (Raises IndexError,
        engine (boot (Data:=Z) (Handler:=handler) (World:=nat) 1 (-3) 0%nat)).
Proof.
  split.
  - apply (X17_put_without_shards Demo.hash Demo.call [] 1 0 0%nat Y). lia.
  - apply (X17_put_without_shards Demo.hash Demo.call [] 1 (-3) 0%nat Y). lia.
Defined.


End FurtherConcrete.
